(** * Task store: the in-memory and SQLite backends, the controller, and
    the properties of listing, updating, deleting and statistics.

    The development embeds
    - [src/utils/database.ts], in-memory revision (module [Volatile]);
    - [src/utils/database.ts], SQLite revision (module [Durable]);
    - [src/controllers/taskController.ts] (module [Controller]).

    Conventions of the embedding.
    - A JavaScript [Date] is the integer it wraps (milliseconds since the
      epoch, [getTime()]), a [Z].  [new Date()] reads the clock; the reading
      is an explicit argument of the operation that performs it.
    - A JavaScript number that counts or indexes is a [Z]; [NaN] and
      fractions are outside the model.
    - [undefined] for an optional argument or an absent key is [None].
      A key of a patch is present when its value is not [undefined].
      [null] and [undefined] returned as "no such task" are both [None].
    - A string is a [string] of ASCII characters; on those
      [toLowerCase]/[toUpperCase] are the maps on [A-Z]/[a-z] below.
    - The module-level array [tasks] (resp. the table [tasks]) is threaded
      explicitly: an operation takes the store and returns its result with
      the new store.  Promises are not modelled: an [async] function is the
      function of its resolved value, a rejected promise is a [Fault]. *)

From Stdlib Require Import ZArith Lia Ascii Sorted.
From stdpp Require Import numbers strings list sorting.

Local Open Scope Z_scope.

(** ** JavaScript strings *)

Module Js.

Definition is_upper (c : ascii) : bool :=
  (65 <=? nat_of_ascii c)%nat && (nat_of_ascii c <=? 90)%nat.

Definition is_lower (c : ascii) : bool :=
  (97 <=? nat_of_ascii c)%nat && (nat_of_ascii c <=? 122)%nat.

Definition lower_char (c : ascii) : ascii :=
  if is_upper c then ascii_of_nat (nat_of_ascii c + 32) else c.

Definition upper_char (c : ascii) : ascii :=
  if is_lower c then ascii_of_nat (nat_of_ascii c - 32) else c.

(** [String.prototype.toLowerCase] *)
Fixpoint toLowerCase (s : string) : string :=
  match s with
  | EmptyString => EmptyString
  | String c s' => String (lower_char c) (toLowerCase s')
  end.

(** [String.prototype.toUpperCase] *)
Fixpoint toUpperCase (s : string) : string :=
  match s with
  | EmptyString => EmptyString
  | String c s' => String (upper_char c) (toUpperCase s')
  end.

(** [s.includes(needle)]: [needle] occurs in [s] at some position. *)
Fixpoint includes (s needle : string) : bool :=
  String.prefix needle s ||
  match s with
  | EmptyString => false
  | String _ s' => includes s' needle
  end.

(** Truthiness of an optional string, [if (x)]: [undefined] and the empty
    string are falsy.  The result is the value when it is truthy. *)
Definition truthy_string (x : option string) : option string :=
  match x with
  | Some EmptyString => None
  | other => other
  end.

(** Truthiness of an optional number: [undefined] and [0] are falsy. *)
Definition truthy_number (x : option Z) : option Z :=
  match x with
  | Some 0 => None
  | other => other
  end.

(** Relative index of [Array.prototype.slice]: a negative index counts
    from the end, and the result is clamped to [0 .. len]. *)
Definition relative_index (len i : Z) : Z :=
  if i <? 0 then Z.max (len + i) 0 else Z.min i len.

(** [arr.slice(start, end)] *)
Definition slice {A} (arr : list A) (start end_ : Z) : list A :=
  let len := Z.of_nat (length arr) in
  let k := relative_index len start in
  let final := relative_index len end_ in
  take (Z.to_nat (final - k)) (drop (Z.to_nat k) arr).

(** [Array.prototype.sort(cmp)] is a stable sort: [a] stays in front of a
    later [b] unless [cmp(a, b) > 0].  It is modelled by stable insertion,
    which for a comparator that is a consistent order yields the one
    stable sorted arrangement. *)
Fixpoint sort_insert {A} (cmp : A → A → Z) (a : A) (sorted : list A) : list A :=
  match sorted with
  | [] => [a]
  | b :: rest => if 0 <? cmp a b then b :: sort_insert cmp a rest
                 else a :: b :: rest
  end.

Definition sort {A} (cmp : A → A → Z) (arr : list A) : list A :=
  foldr (sort_insert cmp) [] arr.

(** [Math.ceil(a / b)] on integers (for [b ≠ 0]). *)
Definition ceil_div (a b : Z) : Z := - ((- a) / b).

End Js.

(** ** The task entity ([models/task.ts]) *)

(** Modelled from the spec: [models/task.ts] is not among the sources; the
    enum [TaskStatus] has the three members the spec and the validation
    messages name, each with its own name as string value. *)
Inductive TaskStatus := PENDING | IN_PROGRESS | COMPLETED.

Global Instance TaskStatus_eq_dec : EqDecision TaskStatus.
Proof. solve_decision. Defined.

(** The string value of an enum member. *)
Definition status_value (s : TaskStatus) : string :=
  match s with
  | PENDING => "PENDING"
  | IN_PROGRESS => "IN_PROGRESS"
  | COMPLETED => "COMPLETED"
  end.

(** Modelled from the spec: the interface [Task] of [models/task.ts], with
    the six fields every use in the sources reads or writes. *)
Record Task := mkTask {
  id : string;
  title : string;
  description : string;
  status : TaskStatus;
  createdAt : Z;
  updatedAt : Z
}.

Global Instance Task_eq_dec : EqDecision Task.
Proof. solve_decision. Defined.

(** [task.status] as the string it is at run time. *)
Definition status_text (task : Task) : string := status_value (status task).

(** [Partial<Task>]: every key optional. *)
Record PartialTask := mkPartial {
  p_id : option string;
  p_title : option string;
  p_description : option string;
  p_status : option TaskStatus;
  p_createdAt : option Z;
  p_updatedAt : option Z
}.

Definition empty_patch : PartialTask := mkPartial None None None None None None.

(** What [getAllTasks] returns: [page] and [totalPages] are optional keys. *)
Record ListResult := mkList {
  tasks : list Task;
  total : Z;
  page : option Z;
  totalPages : option Z
}.

(** The result of a store operation, as its caller observes it. *)
Inductive Outcome :=
| Listed (r : ListResult)
| Found (t : option Task)
| Stored (t : Task)
| Flag (b : bool)
| Count (n : Z)
| Done
| Fault.

(** The object literal [{ ...task, ...updates, updatedAt: now }] that both
    backends build in [updateTask]: every key present in [updates]
    overrides the task's, then [updatedAt] is set. *)
Definition spread (task : Task) (updates : PartialTask) (now : Z) : Task :=
  {| id := default (id task) (p_id updates);
     title := default (title task) (p_title updates);
     description := default (description task) (p_description updates);
     status := default (status task) (p_status updates);
     createdAt := default (createdAt task) (p_createdAt updates);
     updatedAt := now |}.

(** ** The in-memory backend *)

Module Volatile.

(** [(a, b) => b.createdAt.getTime() - a.createdAt.getTime()] *)
Definition newest_first (a b : Task) : Z := createdAt b - createdAt a.

Definition getAllTasks (page limit : option Z) (status search : option string)
    (store : list Task) : ListResult :=
  let filteredTasks := store in
  let filteredTasks :=
    match Js.truthy_string status with
    | Some status =>
        filter (λ task, Js.toLowerCase (status_text task)
                        = Js.toLowerCase status) filteredTasks
    | None => filteredTasks
    end in
  let filteredTasks :=
    match Js.truthy_string search with
    | Some search =>
        filter (λ task, Js.includes (Js.toLowerCase (title task))
                                    (Js.toLowerCase search) = true) filteredTasks
    | None => filteredTasks
    end in
  let filteredTasks := Js.sort newest_first filteredTasks in
  let total := Z.of_nat (length filteredTasks) in
  match Js.truthy_number page, Js.truthy_number limit with
  | Some page, Some limit =>
      let startIndex := (page - 1) * limit in
      let endIndex := startIndex + limit in
      mkList (Js.slice filteredTasks startIndex endIndex) total
             (Some page) (Some (Js.ceil_div total limit))
  | _, _ => mkList filteredTasks total None None
  end.

Definition getTaskById (i : string) (store : list Task) : option Task :=
  snd <$> list_find (λ task, id task = i) store.

Definition addTask (task : Task) (store : list Task) : Task * list Task :=
  (task, store ++ [task]).

Definition updateTask (i : string) (updates : PartialTask) (now : Z)
    (store : list Task) : option Task * list Task :=
  match list_find (λ task, id task = i) store with
  | None => (None, store)
  | Some (taskIndex, task) =>
      let merged := spread task updates now in
      (Some merged, <[taskIndex := merged]> store)
  end.

Definition deleteTask (i : string) (store : list Task) : bool * list Task :=
  match list_find (λ task, id task = i) store with
  | None => (false, store)
  | Some (taskIndex, _) => (true, delete taskIndex store)
  end.

Definition getTaskCount (store : list Task) : Z := Z.of_nat (length store).

Definition clearAllTasks (store : list Task) : list Task := [].

End Volatile.

(** ** SQL, as far as the statements of the SQLite backend use it *)

Module Sql.

(** [text LIKE pattern] with SQLite's defaults: [%] matches any run of
    characters, [_] any one character, every other character matches
    itself ignoring ASCII case; there is no escape character. *)
Fixpoint like (pattern : string) : string → bool :=
  match pattern with
  | EmptyString => λ text, match text with EmptyString => true | _ => false end
  | String c pattern' =>
      if decide (c = "%"%char) then
        fix any_run (text : string) : bool :=
          like pattern' text ||
          match text with
          | EmptyString => false
          | String _ text' => any_run text'
          end
      else if decide (c = "_"%char) then
        λ text, match text with
                | EmptyString => false
                | String _ text' => like pattern' text'
                end
      else
        λ text, match text with
                | EmptyString => false
                | String d text' =>
                    bool_decide (Js.lower_char c = Js.lower_char d)
                    && like pattern' text'
                end
  end.

(** [ORDER BY createdAt DESC].  The column holds [toISOString()] texts,
    whose order is the order of the dates for years 0000 to 9999.  SQL
    leaves the order of rows with equal keys open; SQLite feeds its sorter
    in rowid order and the model keeps equal keys in that order. *)
Fixpoint order_insert (row : Task) (sorted : list Task) : list Task :=
  match sorted with
  | [] => [row]
  | r :: rest => if createdAt row <? createdAt r then r :: order_insert row rest
                 else row :: r :: rest
  end.

Definition order_by_createdAt_desc (rows : list Task) : list Task :=
  foldr order_insert [] rows.

(** [LIMIT ? OFFSET ?]: a negative limit is no limit, a negative offset
    is no offset. *)
Definition limit_offset {A} (rows : list A) (limit offset : Z) : list A :=
  let rows := drop (Z.to_nat offset) rows in
  if limit <? 0 then rows else take (Z.to_nat limit) rows.

End Sql.

(** ** The SQLite backend *)

(** The table [tasks] is the list of its rows in rowid order (the order of
    insertion).  A row is the task it stores: the two date columns hold
    [toISOString()] of the dates and are read back with [new Date(...)],
    which is the identity on the dates. *)
Module Durable.

(** The [WHERE] clause [getAllTasks] builds: [1=1], [AND status = ?] with
    [status.toUpperCase()], [AND title LIKE ?] with [`%${search}%`]. *)
Definition where_clause (status search : option string) (row : Task) : bool :=
  match Js.truthy_string status with
  | Some status => bool_decide (status_text row = Js.toUpperCase status)
  | None => true
  end &&
  match Js.truthy_string search with
  | Some search => Sql.like ("%" +:+ search +:+ "%") (title row)
  | None => true
  end.

Definition getAllTasks (page limit : option Z) (status search : option string)
    (table : list Task) : ListResult :=
  let selected := List.filter (where_clause status search) table in
  let total := Z.of_nat (length selected) in
  let ordered := Sql.order_by_createdAt_desc selected in
  match Js.truthy_number page, Js.truthy_number limit with
  | Some page, Some limit =>
      let offset := (page - 1) * limit in
      mkList (Sql.limit_offset ordered limit offset) total
             (Some page) (Some (Js.ceil_div total limit))
  | _, _ => mkList ordered total None None
  end.

(** [SELECT * FROM tasks WHERE id = ?], first row. *)
Definition getTaskById (i : string) (table : list Task) : option Task :=
  head (filter (λ row, id row = i) table).

(** [INSERT INTO tasks ...]: [id] is the primary key, so inserting a row
    whose id the table holds fails and the promise is rejected ([None]). *)
Definition addTask (task : Task) (table : list Task) : option Task * list Task :=
  if decide (id task ∈ id <$> table) then (None, table)
  else (Some task, table ++ [task]).

(** The [SET] clauses of [updateTask] applied to one row. *)
Definition set_columns (updates : PartialTask) (updatedTask : Task) (row : Task) : Task :=
  {| id := id row;
     title := match p_title updates with
              | Some _ => title updatedTask | None => title row end;
     description := match p_description updates with
                    | Some _ => description updatedTask | None => description row end;
     status := match p_status updates with
               | Some _ => status updatedTask | None => status row end;
     createdAt := createdAt row;
     updatedAt := updatedAt updatedTask |}.

Definition updateTask (i : string) (updates : PartialTask) (now : Z)
    (table : list Task) : option Task * list Task :=
  match getTaskById i table with
  | None => (None, table)
  | Some existingTask =>
      let updatedTask := spread existingTask updates now in
      let table :=
        (λ row, if decide (id row = i) then set_columns updates updatedTask row
                else row) <$> table in
      (getTaskById i table, table)
  end.

(** [DELETE FROM tasks WHERE id = ?]; [result.changes] is the number of
    rows deleted. *)
Definition deleteTask (i : string) (table : list Task) : bool * list Task :=
  let kept := filter (λ row, id row ≠ i) table in
  let changes := Z.of_nat (length table) - Z.of_nat (length kept) in
  (bool_decide (changes > 0), kept).

Definition getTaskCount (table : list Task) : Z := Z.of_nat (length table).

Definition clearAllTasks (table : list Task) : list Task := [].

End Durable.

(** ** The controller ([controllers/taskController.ts])

    The handlers call the store synchronously (no [await]), which is the
    in-memory store's interface; they are embedded over [Volatile]. *)

Module Controller.

(** [CreateTaskRequest]: the validated body of [POST /tasks]. *)
Record CreateTaskRequest := mkCreate {
  c_title : string;
  c_description : option string;
  c_status : option TaskStatus
}.

(** [createTask].  [uuid] is what [uuidv4()] returns; [now1] and [now2]
    are the clock readings of the two [new Date()] expressions, in the
    order they are evaluated ([createdAt] first). *)
Definition createTask (body : CreateTaskRequest) (uuid : string) (now1 now2 : Z)
    (store : list Task) : Task * list Task :=
  let newTask :=
    {| id := uuid;
       title := c_title body;
       description := default "" (Js.truthy_string (c_description body));
       status := default PENDING (c_status body);
       createdAt := now1;
       updatedAt := now2 |} in
  Volatile.addTask newTask store.

(** [req.query] of [GET /tasks].  [page] and [limit] hold the integers
    [parseInt] reads from them.  [sortBy] and [sortOrder] are the
    parameters the API documentation lists; no handler reads them. *)
Record Query := mkQuery {
  q_page : option Z;
  q_limit : option Z;
  q_status : option string;
  q_search : option string;
  q_sortBy : option string;
  q_sortOrder : option string
}.

Record Pagination := mkPagination {
  currentPage : option Z;
  pg_totalPages : option Z;
  totalItems : Z;
  itemsPerPage : Z
}.

(** The body of the 200 response of [getAllTasksController]. *)
Record ListResponse := mkResponse {
  data : list Task;
  pagination : option Pagination;
  r_total : Z
}.

Definition getAllTasksController (query : Query) (store : list Task) : ListResponse :=
  let pageNum := q_page query in
  let limitNum := q_limit query in
  let result := Volatile.getAllTasks pageNum limitNum (q_status query) (q_search query) store in
  {| data := tasks result;
     pagination :=
       match Js.truthy_number pageNum, Js.truthy_number limitNum with
       | Some _, Some limitNum =>
           Some (mkPagination (page result) (totalPages result) (total result) limitNum)
       | _, _ => None
       end;
     r_total := total result |}.

(** A JavaScript object with numeric values: its keys in order, each with
    its value. *)
Abbreviation JsObject := (list (string * Z)).

(** [obj[key]], [None] when the object has no such key. *)
Fixpoint field (obj : JsObject) (key : string) : option Z :=
  match obj with
  | [] => None
  | (k, v) :: rest => if decide (k = key) then Some v else field rest key
  end.

(** [getTaskStats]: the object [stats] sent as [data].  The handler is
    given the request and reads nothing from it. *)
Definition getTaskStats (query : Query) (store : list Task) : JsObject :=
  let allTasks := Volatile.getAllTasks None None None None store in
  let tasks := tasks allTasks in
  [ ("total", Z.of_nat (length tasks));
    ("pending", Z.of_nat (length (filter (λ task, status task = PENDING) tasks)));
    ("inProgress", Z.of_nat (length (filter (λ task, status task = IN_PROGRESS) tasks)));
    ("completed", Z.of_nat (length (filter (λ task, status task = COMPLETED) tasks))) ].

End Controller.

(** * Properties *)

(** ** Sorting *)

Section sort_facts.
Context {A : Type} (cmp : A → A → Z).

Lemma sort_insert_perm a l : Js.sort_insert cmp a l ≡ₚ a :: l.
Proof.
  induction l as [|b l IH]; simpl; [done|].
  destruct (0 <? cmp a b); [|done].
  rewrite IH. apply Permutation_swap.
Qed.

Lemma sort_perm l : Js.sort cmp l ≡ₚ l.
Proof.
  induction l as [|a l IH]; simpl; [done|].
  rewrite sort_insert_perm. by rewrite IH.
Qed.

Lemma sort_length l : length (Js.sort cmp l) = length l.
Proof. by rewrite sort_perm. Qed.

End sort_facts.

(** ** Statistics *)

(** The number of tasks of the collection that have the given status. *)
Fixpoint count_status (st : TaskStatus) (l : list Task) : Z :=
  match l with
  | [] => 0
  | t :: l' => (if decide (status t = st) then 1 else 0) + count_status st l'
  end.

Lemma count_status_filter st l :
  Z.of_nat (length (filter (λ task, status task = st) l)) = count_status st l.
Proof.
  induction l as [|t l IH]; simpl; [done|].
  rewrite filter_cons. destruct (decide (status t = st)); simpl; lia.
Qed.

Lemma count_status_total l :
  count_status PENDING l + count_status IN_PROGRESS l + count_status COMPLETED l
  = Z.of_nat (length l).
Proof.
  induction l as [|t l IH]; simpl; [done|].
  destruct (status t); repeat case_decide; try done; lia.
Qed.

Lemma getAllTasks_plain store :
  Volatile.getAllTasks None None None None store
  = mkList (Js.sort Volatile.newest_first store) (Z.of_nat (length store)) None None.
Proof. unfold Volatile.getAllTasks. simpl. by rewrite sort_length. Qed.

Lemma getTaskStats_counts query store :
  Controller.getTaskStats query store
  = [ ("total", Z.of_nat (length store));
      ("pending", count_status PENDING store);
      ("inProgress", count_status IN_PROGRESS store);
      ("completed", count_status COMPLETED store) ].
Proof.
  unfold Controller.getTaskStats. rewrite getAllTasks_plain. simpl.
  rewrite sort_length.
  by rewrite !(sort_perm Volatile.newest_first store), !count_status_filter.
Qed.

(** The three tasks of the spec's scenario, in creation order. *)
Definition scenario_A := mkTask "a" "A" "" PENDING 1000 1000.
Definition scenario_B := mkTask "b" "B" "" PENDING 2000 2000.
Definition scenario_C := mkTask "c" "C" "" COMPLETED 3000 3000.
Definition scenario : list Task := [scenario_A; scenario_B; scenario_C].
Definition no_query := Controller.mkQuery None None None None None None.

(** C1, as stated, fails: for the collection PENDING, PENDING, COMPLETED
    the object the stats operation returns has no key [completionRate], so
    it does not carry [completionRate = 33.33] (nor any other value). *)
Lemma C1_no_completionRate :
  ¬ ∃ rate, Controller.field (Controller.getTaskStats no_query scenario)
              "completionRate" = Some rate.
Proof. intros [rate H]. vm_compute in H. discriminate. Qed.

(** C1, amended: for every state of the collection the stats operation
    returns exactly the four keys [total], [pending], [inProgress],
    [completed], holding the size of the collection and the exact number
    of tasks of each status, and no [completionRate]; for the collection
    PENDING, PENDING, COMPLETED it returns total 3, pending 2,
    inProgress 0, completed 1. *)
Theorem C1_stats_counts (query : Controller.Query) (store : list Task) :
  let stats := Controller.getTaskStats query store in
  map fst stats = ["total"; "pending"; "inProgress"; "completed"]
  ∧ Controller.field stats "total" = Some (Z.of_nat (length store))
  ∧ Controller.field stats "pending" = Some (count_status PENDING store)
  ∧ Controller.field stats "inProgress" = Some (count_status IN_PROGRESS store)
  ∧ Controller.field stats "completed" = Some (count_status COMPLETED store)
  ∧ Controller.field stats "completionRate" = None
  ∧ Controller.getTaskStats query scenario
    = [("total", 3); ("pending", 2); ("inProgress", 0); ("completed", 1)].
Proof.
  intros stats. subst stats. rewrite !getTaskStats_counts.
  repeat split; reflexivity.
Qed.

(** C7: for every state of the collection, and whatever filter the
    request carries, the stats operation counts over the whole collection
    ([total] is its size) and [pending + inProgress + completed = total];
    for the empty collection all four are 0. *)
Theorem C7_stats_invariant (query : Controller.Query) (store : list Task) :
  let stats := Controller.getTaskStats query store in
  (∃ t p i c,
      Controller.field stats "total" = Some t
      ∧ Controller.field stats "pending" = Some p
      ∧ Controller.field stats "inProgress" = Some i
      ∧ Controller.field stats "completed" = Some c
      ∧ t = Z.of_nat (length store)
      ∧ p = count_status PENDING store
      ∧ i = count_status IN_PROGRESS store
      ∧ c = count_status COMPLETED store
      ∧ p + i + c = t)
  ∧ (∀ query', Controller.getTaskStats query' store = stats)
  ∧ Controller.getTaskStats query []
    = [("total", 0); ("pending", 0); ("inProgress", 0); ("completed", 0)].
Proof.
  intros stats. subst stats. split; [|split].
  - rewrite getTaskStats_counts.
    eexists _, _, _, _. repeat split; try reflexivity.
    apply count_status_total.
  - intros query'. by rewrite !getTaskStats_counts.
  - reflexivity.
Qed.

(** ** Strings *)

Lemma upper_lower_char c : Js.upper_char (Js.lower_char c) = Js.upper_char c.
Proof. destruct c as [[] [] [] [] [] [] [] []]; reflexivity. Qed.

Lemma lower_upper_char c : Js.lower_char (Js.upper_char c) = Js.lower_char c.
Proof. destruct c as [[] [] [] [] [] [] [] []]; reflexivity. Qed.

Lemma toUpperCase_toLowerCase s : Js.toUpperCase (Js.toLowerCase s) = Js.toUpperCase s.
Proof. induction s as [|c s IH]; simpl; [done|]. by rewrite upper_lower_char, IH. Qed.

Lemma toLowerCase_toUpperCase s : Js.toLowerCase (Js.toUpperCase s) = Js.toLowerCase s.
Proof. induction s as [|c s IH]; simpl; [done|]. by rewrite lower_upper_char, IH. Qed.

Lemma status_value_upper st : Js.toUpperCase (status_value st) = status_value st.
Proof. by destruct st. Qed.

Lemma status_value_inj st st' : status_value st = status_value st' → st = st'.
Proof. by destruct st, st'. Qed.

(** The status comparison of the in-memory filter, read on upper case. *)
Lemma lower_eq_upper st s :
  Js.toLowerCase (status_value st) = Js.toLowerCase s
  ↔ status_value st = Js.toUpperCase s.
Proof.
  split; intros H.
  - rewrite <- (status_value_upper st), <- toUpperCase_toLowerCase, H.
    apply toUpperCase_toLowerCase.
  - by rewrite <- (toLowerCase_toUpperCase s), <- H.
Qed.

Lemma append_cons c s s' : String c s +:+ s' = String c (s +:+ s').
Proof. reflexivity. Qed.


Lemma prefix_spec n s : String.prefix n s = true ↔ ∃ post, s = n +:+ post.
Proof.
  revert s. induction n as [|a n IH]; intros s.
  - destruct s; split; eauto.
  - destruct s as [|b s]; simpl.
    + split; [done|]. by intros [post ?].
    + destruct (ascii_dec a b) as [->|Hne].
      * rewrite IH. split; intros [post H]; exists post.
        -- by rewrite append_cons, H.
        -- rewrite append_cons in H. by injection H.
      * split; [done|]. intros [post H]. rewrite append_cons in H. congruence.
Qed.

Lemma includes_spec s n :
  Js.includes s n = true ↔ ∃ pre post, s = pre +:+ n +:+ post.
Proof.
  induction s as [|c s IH].
  - change (Js.includes "" n) with (String.prefix n "" || false).
    rewrite orb_false_r, prefix_spec. split.
    + intros [post H]. by exists "", post.
    + intros [pre [post H]]. destruct pre; [by exists post|done].
  - change (Js.includes (String c s) n)
      with (String.prefix n (String c s) || Js.includes s n).
    rewrite orb_true_iff, IH, prefix_spec. split.
    + intros [[post H]|[pre [post H]]].
      * by exists "", post.
      * exists (String c pre), post. by rewrite append_cons, H.
    + intros [pre [post H]]. destruct pre as [|c' pre].
      * left. by exists post.
      * right. exists pre, post. rewrite append_cons in H. congruence.
Qed.

(** ** Filtering (C6) *)

(** Case-insensitive normalization of a status filter to the enum: the
    member whose value is the upper-cased input, if there is one. *)
Definition canonical_status (s : string) : option TaskStatus :=
  if decide (Js.toUpperCase s = "PENDING") then Some PENDING
  else if decide (Js.toUpperCase s = "IN_PROGRESS") then Some IN_PROGRESS
  else if decide (Js.toUpperCase s = "COMPLETED") then Some COMPLETED
  else None.

(** [needle] is a substring of [s], ignoring case. *)
Definition substring_ci (needle s : string) : Prop :=
  ∃ pre post, Js.toLowerCase s = pre +:+ Js.toLowerCase needle +:+ post.

Lemma canonical_status_spec s st :
  canonical_status s = Some st ↔ status_value st = Js.toUpperCase s.
Proof.
  unfold canonical_status. split.
  - repeat case_decide; intros [= <-]; done.
  - intros <-. by destruct st.
Qed.


Lemma truthy_string_Some x s : Js.truthy_string x = Some s ↔ x = Some s ∧ s ≠ "".
Proof.
  destruct x as [[|c x]|]; simpl; split; try done.
  - by intros [[= <-] ?].
  - by intros [= <-].
  - by intros [? ?].
  - by intros [? ?].
Qed.

Lemma truthy_string_None x : Js.truthy_string x = None ↔ x = None ∨ x = Some "".
Proof. destruct x as [[|c x]|]; simpl; split; try done; auto; by intros [?|?]. Qed.



(** What [getAllTasks] returns, in terms of the list it returns without
    [page] and [limit]. *)
Lemma getAllTasks_paging page limit status search store :
  let ordered := tasks (Volatile.getAllTasks None None status search store) in
  let count := Z.of_nat (length ordered) in
  Volatile.getAllTasks page limit status search store
  = match Js.truthy_number page, Js.truthy_number limit with
    | Some p, Some l =>
        mkList (Js.slice ordered ((p - 1) * l) ((p - 1) * l + l)) count
               (Some p) (Some (Js.ceil_div count l))
    | _, _ => mkList ordered count None None
    end.
Proof.
  unfold Volatile.getAllTasks. simpl.
  destruct (Js.truthy_number page), (Js.truthy_number limit); reflexivity.
Qed.

(** C6: without paging, a task is in the result of [getAllTasks] exactly
    when it is in the store and satisfies every filter that is given (a
    non-empty string): its status is the one the status filter normalizes
    to, ignoring case, and the search string occurs in its title, ignoring
    case.  The description plays no part. *)
Theorem C6_filter_membership (status_filter search_filter : option string)
    (store : list Task) (t : Task) :
  t ∈ tasks (Volatile.getAllTasks None None status_filter search_filter store)
  ↔ t ∈ store
    ∧ (∀ s, status_filter = Some s → s ≠ "" → canonical_status s = Some (status t))
    ∧ (∀ q, search_filter = Some q → q ≠ "" → substring_ci q (title t)).
Proof.
  unfold Volatile.getAllTasks. simpl. rewrite sort_perm.
  destruct (Js.truthy_string search_filter) as [q|] eqn:Hq;
    destruct (Js.truthy_string status_filter) as [s|] eqn:Hs;
    rewrite ?list_elem_of_filter.
  all: try apply truthy_string_Some in Hq as [-> Hq].
  all: try apply truthy_string_Some in Hs as [-> Hs].
  all: try apply truthy_string_None in Hq.
  all: try apply truthy_string_None in Hs.
  all: unfold status_text; rewrite ?lower_eq_upper, ?includes_spec.
  all: setoid_rewrite canonical_status_spec.
  all: unfold substring_ci.
  all: try destruct Hq as [->| ->]; try destruct Hs as [->| ->].
  all: split;
    [ intros; split_and!; intros; simplify_eq; intuition eauto
    | intros (? & Hst & Hsub); split_and?; eauto ].
Qed.

(** ** Order of the result (C3) *)







(** ** Pagination (C5, C10) *)

Lemma slice_page {A} (l : list A) (p limit : Z) :
  0 < p → 0 < limit →
  Js.slice l ((p - 1) * limit) ((p - 1) * limit + limit)
  = take (Z.to_nat limit) (drop (Z.to_nat ((p - 1) * limit)) l).
Proof.
  intros Hp Hl. unfold Js.slice, Js.relative_index.
  assert (0 ≤ (p - 1) * limit) as Hs by nia.
  destruct (Z.ltb_spec ((p - 1) * limit) 0) as [|_]; [lia|].
  destruct (Z.ltb_spec ((p - 1) * limit + limit) 0) as [|_]; [lia|].
  destruct (Z.le_gt_cases (Z.of_nat (length l)) ((p - 1) * limit)) as [Hge|Hlt].
  - rewrite !Z.min_r by lia. rewrite Z.sub_diag. simpl.
    rewrite (drop_ge l (Z.to_nat ((p - 1) * limit))) by lia. by rewrite take_nil.
  - rewrite (Z.min_l ((p - 1) * limit)) by lia.
    destruct (Z.le_gt_cases ((p - 1) * limit + limit) (Z.of_nat (length l))).
    + rewrite Z.min_l by lia. f_equal. lia.
    + rewrite Z.min_r by lia.
      rewrite !take_ge; [done| |]; rewrite length_drop; lia.
Qed.


Lemma ceil_div_bounds a b :
  0 < b → (Js.ceil_div a b - 1) * b < a ≤ Js.ceil_div a b * b.
Proof.
  intros Hb. unfold Js.ceil_div.
  pose proof (Z.div_mod (- a) b ltac:(lia)).
  pose proof (Z.mod_pos_bound (- a) b Hb). nia.
Qed.

Lemma ceil_div_unique a b n : 0 < b → (n - 1) * b < a ≤ n * b → n = Js.ceil_div a b.
Proof. intros Hb Hn. pose proof (ceil_div_bounds a b Hb). nia. Qed.















(** ** Deleting (C9) *)

Lemma filter_other_ids i (l : list Task) :
  i ∉ id <$> l → filter (λ t, id t ≠ i) l = l.
Proof.
  induction l as [|a l IH]; [done|]. rewrite fmap_cons, not_elem_of_cons.
  intros [Hne Hl]. rewrite filter_cons. case_decide; [|done]. by rewrite IH.
Qed.

Lemma volatile_deleteTask_spec i store :
  NoDup (id <$> store) →
  Volatile.deleteTask i store
  = (bool_decide (i ∈ id <$> store), filter (λ t, id t ≠ i) store).
Proof.
  unfold Volatile.deleteTask.
  induction store as [|a store IH]; [done|].
  intros Hnd. rewrite fmap_cons in Hnd |- *. apply NoDup_cons in Hnd as [Ha Hnd].
  specialize (IH Hnd). rewrite filter_cons. simpl.
  destruct (decide (id a = i)) as [Hi|Hi]; destruct (decide (id a ≠ i)) as [Hi'|Hi'];
    try done.
  - subst i. simpl. rewrite bool_decide_eq_true_2 by (left; done).
    by rewrite filter_other_ids.
  - revert IH. destruct (list_find _ store) as [[k t]|]; simpl; intros [= Hb Hs].
    + rewrite Hs. f_equal. symmetry in Hb. apply bool_decide_eq_true in Hb.
      symmetry. apply bool_decide_eq_true. by right.
    + rewrite <- Hs. f_equal. symmetry in Hb. apply bool_decide_eq_false in Hb.
      symmetry. apply bool_decide_eq_false. rewrite not_elem_of_cons. done.
Qed.

Lemma changes_positive i (table : list Task) :
  Z.of_nat (length table) - Z.of_nat (length (filter (λ row, id row ≠ i) table)) > 0
  ↔ i ∈ id <$> table.
Proof.
  induction table as [|a table IH]; simpl.
  - split; [lia|]. by intros ?%elem_of_nil.
  - pose proof (length_filter (λ t, id t ≠ i) table) as Hlen.
    rewrite filter_cons, elem_of_cons.
    destruct (decide (id a ≠ i)) as [Hi|Hi]; simpl length.
    + rewrite <- IH. split; [intros ?; right; lia|]. intros [?|?]; [by destruct Hi|lia].
    + split; [|lia]. intros _. left. destruct (decide (i = id a)); [done|].
      destruct Hi. congruence.
Qed.

Lemma durable_deleteTask_spec i table :
  Durable.deleteTask i table
  = (bool_decide (i ∈ id <$> table), filter (λ t, id t ≠ i) table).
Proof.
  unfold Durable.deleteTask. f_equal. apply bool_decide_ext, changes_positive.
Qed.

Lemma ids_filter_other i (l : list Task) : i ∉ id <$> filter (λ t, id t ≠ i) l.
Proof.
  rewrite list_elem_of_fmap. intros (t & -> & Ht).
  apply list_elem_of_filter in Ht as [Hne _]. done.
Qed.

Lemma NoDup_ids_filter (P : Task → Prop) `{!∀ t, Decision (P t)} (l : list Task) :
  NoDup (id <$> l) → NoDup (id <$> filter P l).
Proof.
  induction l as [|a l IH]; [done|].
  rewrite fmap_cons, NoDup_cons, filter_cons. intros [Ha Hl].
  case_decide; [|by apply IH].
  rewrite fmap_cons, NoDup_cons. split; [|by apply IH].
  rewrite list_elem_of_fmap in Ha |- *. intros (t & Ht & Hin).
  apply list_elem_of_filter in Hin as [_ Hin]. naive_solver.
Qed.

Lemma volatile_getTaskById_None i store :
  Volatile.getTaskById i store = None ↔ i ∉ id <$> store.
Proof.
  unfold Volatile.getTaskById. rewrite fmap_None, list_find_None, Forall_forall.
  rewrite list_elem_of_fmap. naive_solver.
Qed.

Lemma durable_getTaskById_None i table :
  Durable.getTaskById i table = None ↔ i ∉ id <$> table.
Proof.
  unfold Durable.getTaskById. rewrite head_None, list_elem_of_fmap. split.
  - intros Hnil (t & -> & Hin).
    assert (t ∈ filter (λ row, id row = id t) table) as Ht
      by by apply list_elem_of_filter.
    rewrite Hnil in Ht. by apply elem_of_nil in Ht.
  - intros Hno. destruct (filter _ table) as [|t l] eqn:Hf; [done|].
    assert (t ∈ filter (λ row, id row = i) table) as Ht by (rewrite Hf; left).
    apply list_elem_of_filter in Ht as [Ht Hin]. destruct Hno. by exists t.
Qed.

(** What the claim says of a [deleteTask] (with the [getTaskById] of its
    backend) at an id and a store. *)
Definition delete_contract
    (deleteTask : string → list Task → bool * list Task)
    (getTaskById : string → list Task → option Task)
    (i : string) (store : list Task) : Prop :=
  let first := deleteTask i store in
  let second := deleteTask i (snd first) in
  (* true for an id of the store, false for an unknown id *)
  (i ∈ id <$> store → fst first = true)
  ∧ (i ∉ id <$> store → fst first = false ∧ snd first = store)
  (* the record is removed, the others stay as they are *)
  ∧ snd first = filter (λ t, id t ≠ i) store
  ∧ getTaskById i (snd first) = None
  (* a second delete of the same id finds nothing *)
  ∧ fst second = false
  ∧ snd second = snd first.

Lemma delete_contract_intro deleteTask getTaskById i store :
  (∀ s, NoDup (id <$> s) →
        deleteTask i s = (bool_decide (i ∈ id <$> s), filter (λ t, id t ≠ i) s)) →
  (∀ s, getTaskById i s = None ↔ i ∉ id <$> s) →
  NoDup (id <$> store) →
  delete_contract deleteTask getTaskById i store.
Proof.
  intros Hdel Hget Hnd. unfold delete_contract.
  pose proof (ids_filter_other i store) as Hgone.
  rewrite (Hdel store Hnd). simpl.
  rewrite (Hdel _ (NoDup_ids_filter _ _ Hnd)). simpl.
  rewrite Hget, (filter_other_ids i (filter _ store)) by done.
  split_and!; try done.
  - intros. by apply bool_decide_eq_true_2.
  - intros Hno. split; [by apply bool_decide_eq_false_2|by apply filter_other_ids].
  - by apply bool_decide_eq_false_2.
Qed.

(** C9: in a store whose ids are unique, [deleteTask] of either backend
    removes the record with the id when there is one, leaving the others,
    and returns a boolean: [true] for an id of the store, then [false] for
    a second delete of that id, and [false] for an id the store does not
    hold, which it leaves unchanged. *)
Theorem C9_delete_boolean (i : string) (store : list Task) :
  NoDup (id <$> store) →
  delete_contract Volatile.deleteTask Volatile.getTaskById i store
  ∧ delete_contract Durable.deleteTask Durable.getTaskById i store.
Proof.
  intros Hnd. split; apply delete_contract_intro; try done.
  - intros s. apply volatile_deleteTask_spec.
  - intros s. apply volatile_getTaskById_None.
  - intros s _. apply durable_deleteTask_spec.
  - intros s. apply durable_getTaskById_None.
Qed.

Lemma C9_delete_boolean_witness :
  delete_contract Volatile.deleteTask Volatile.getTaskById "b" scenario
  ∧ delete_contract Durable.deleteTask Durable.getTaskById "b" scenario.
Proof.
  apply (C9_delete_boolean "b" scenario). by apply (bool_decide_unpack _).
Defined.

(** ** Updating (C4) *)

(** The merge the claim describes: a supplied [title], [description] or
    [status] overrides, an absent one is kept, [id] and [createdAt] are
    never overridden, [updatedAt] becomes the current time. *)
Definition patched (updates : PartialTask) (now : Z) (task : Task) : Task :=
  {| id := id task;
     title := default (title task) (p_title updates);
     description := default (description task) (p_description updates);
     status := default (status task) (p_status updates);
     createdAt := createdAt task;
     updatedAt := now |}.

Definition rename_patch : PartialTask :=
  mkPartial (Some "z") None None None (Some 5) None.

(** C4 at the failing input: the in-memory [updateTask] with a patch that
    holds [id] and [createdAt] changes both fields of the stored record;
    the SQLite [updateTask] with the same arguments changes neither. *)
Lemma C4_volatile_patch_overrides_id :
  Volatile.updateTask "a" rename_patch 9999 [scenario_A]
  = (Some (mkTask "z" "A" "" PENDING 5 9999), [mkTask "z" "A" "" PENDING 5 9999])
  ∧ Durable.updateTask "a" rename_patch 9999 [scenario_A]
    = (Some (mkTask "a" "A" "" PENDING 1000 9999), [mkTask "a" "A" "" PENDING 1000 9999]).
Proof. split; reflexivity. Qed.

Lemma spread_patched updates now task :
  p_id updates = None → p_createdAt updates = None →
  spread task updates now = patched updates now task.
Proof. unfold spread, patched. by intros -> ->. Qed.

Lemma set_columns_patched updates now existing row :
  Durable.set_columns updates (spread existing updates now) row = patched updates now row.
Proof.
  unfold Durable.set_columns, patched, spread. simpl.
  by destruct (p_title updates), (p_description updates), (p_status updates).
Qed.

(** [getTaskById] of both backends is the first record with the id. *)
Lemma getTaskById_agree i store :
  Durable.getTaskById i store = Volatile.getTaskById i store.
Proof.
  unfold Durable.getTaskById, Volatile.getTaskById.
  induction store as [|a store IH]; [done|].
  rewrite filter_cons. simpl. case_decide; [done|].
  rewrite IH. by destruct (list_find _ store) as [[k t]|].
Qed.

Lemma getTaskById_fmap (f : Task → Task) i store :
  (∀ t, id (f t) = id t) →
  Durable.getTaskById i (f <$> store) = f <$> Durable.getTaskById i store.
Proof.
  intros Hf. unfold Durable.getTaskById.
  induction store as [|a store IH]; [done|].
  rewrite fmap_cons, !filter_cons, Hf. by case_decide.
Qed.

Lemma getTaskById_Some_id i store t :
  Durable.getTaskById i store = Some t → id t = i ∧ t ∈ store.
Proof.
  unfold Durable.getTaskById. intros H%head_Some_elem_of.
  by apply list_elem_of_filter in H.
Qed.

(** The SQLite [updateTask] is the merge of the claim (no hypothesis on the
    patch): the returned record is the first record with the id, merged;
    in the table every row with the id is merged and the other rows are
    unchanged; an unknown id changes nothing. *)
Lemma durable_updateTask_patched i updates now table :
  Durable.updateTask i updates now table
  = (patched updates now <$> Durable.getTaskById i table,
     (λ row, if decide (id row = i) then patched updates now row else row) <$> table).
Proof.
  unfold Durable.updateTask.
  destruct (Durable.getTaskById i table) as [existing|] eqn:Hget; simpl.
  - assert (((λ row, if decide (id row = i)
                     then Durable.set_columns updates (spread existing updates now) row
                     else row) <$> table)
            = (λ row, if decide (id row = i) then patched updates now row else row)
                <$> table) as ->.
    { apply list_fmap_ext. intros k row _. case_decide; [apply set_columns_patched|done]. }
    f_equal. rewrite getTaskById_fmap, Hget.
    + simpl. apply getTaskById_Some_id in Hget as [Hid _]. by rewrite decide_True.
    + intros t. by case_decide.
  - f_equal. rewrite <- (list_fmap_id table) at 1.
    apply list_fmap_ext. intros k row Hrow. rewrite decide_False; [done|].
    intros Hid. apply durable_getTaskById_None in Hget. apply Hget.
    apply list_elem_of_fmap. exists row. split; [done|]. by eapply list_elem_of_lookup_2.
Qed.

(** In a store with unique ids, the in-memory [updateTask] is the same
    merge for every patch that leaves [id] and [createdAt] out. *)
Lemma volatile_updateTask_patched i updates now store :
  NoDup (id <$> store) → p_id updates = None → p_createdAt updates = None →
  Volatile.updateTask i updates now store
  = (patched updates now <$> Volatile.getTaskById i store,
     (λ row, if decide (id row = i) then patched updates now row else row) <$> store).
Proof.
  intros Hnd Hid Hcr. unfold Volatile.updateTask, Volatile.getTaskById.
  induction store as [|a store IH]; [done|].
  rewrite fmap_cons in Hnd. apply NoDup_cons in Hnd as [Ha Hnd]. specialize (IH Hnd).
  simpl. destruct (decide (id a = i)) as [Hi|Hi]; simpl.
  - rewrite spread_patched by done. do 2 f_equal.
    rewrite <- (list_fmap_id store) at 1. apply list_fmap_ext.
    intros k row Hrow. rewrite decide_False; [done|]. intros Hrow'. apply Ha.
    apply list_elem_of_fmap. exists row. split; [congruence|].
    by eapply list_elem_of_lookup_2.
  - revert IH. destruct (list_find _ store) as [[k t]|]; simpl; intros IH.
    + rewrite spread_patched in IH |- * by done.
      apply (f_equal snd) in IH. do 2 f_equal. exact IH.
    + apply (f_equal snd) in IH. do 2 f_equal. exact IH.
Qed.

(** ** Creating (C8) *)

Lemma volatile_getTaskById_app_fresh i store t :
  i ∉ id <$> store → id t = i → Volatile.getTaskById i (store ++ [t]) = Some t.
Proof.
  intros Hfresh Hid. unfold Volatile.getTaskById.
  apply volatile_getTaskById_None in Hfresh. unfold Volatile.getTaskById in Hfresh.
  apply fmap_None in Hfresh. rewrite list_find_app_r by done. simpl.
  by rewrite decide_True.
Qed.

Lemma description_default d : default "" (Js.truthy_string d) = default "" d.
Proof. by destruct d as [[|c d]|]. Qed.

(** What [createTask] stores, read back with [getTaskById]: when the
    generated id is not yet in the store, the record holds the title,
    description (default the empty string) and status (default [PENDING])
    of the request and the generated id; [createdAt] is the first clock
    reading and [updatedAt] the second. *)
Lemma createTask_get (body : Controller.CreateTaskRequest) (uuid : string)
    (now1 now2 : Z) (store : list Task) :
  uuid ∉ id <$> store →
  Volatile.getTaskById uuid (snd (Controller.createTask body uuid now1 now2 store))
  = Some {| id := uuid;
            title := Controller.c_title body;
            description := default "" (Controller.c_description body);
            status := default PENDING (Controller.c_status body);
            createdAt := now1;
            updatedAt := now2 |}
  ∧ fst (Controller.createTask body uuid now1 now2 store)
    = {| id := uuid;
         title := Controller.c_title body;
         description := default "" (Controller.c_description body);
         status := default PENDING (Controller.c_status body);
         createdAt := now1;
         updatedAt := now2 |}.
Proof.
  intros Hfresh. unfold Controller.createTask, Volatile.addTask. simpl.
  rewrite description_default. split; [|done].
  by apply volatile_getTaskById_app_fresh.
Qed.

Lemma createTask_get_witness :
  Volatile.getTaskById "id-1"
    (snd (Controller.createTask (Controller.mkCreate "A" None None) "id-1" 1000 1000 scenario))
  = Some (mkTask "id-1" "A" "" PENDING 1000 1000).
Proof.
  apply (createTask_get (Controller.mkCreate "A" None None) "id-1" 1000 1000 scenario).
  by apply (bool_decide_unpack _).
Defined.

(** C8 at the failing input: the clock advances from 1000 to 1001 between
    the two [new Date()] of [createTask]; the record read back with the
    generated id has [createdAt = 1000] and [updatedAt = 1001]. *)
Lemma C8_two_clock_readings :
  let created := Controller.createTask (Controller.mkCreate "A" None None) "id-1" 1000 1001 [] in
  Volatile.getTaskById "id-1" (snd created) = Some (mkTask "id-1" "A" "" PENDING 1000 1001)
  ∧ ∀ t, Volatile.getTaskById "id-1" (snd created) = Some t → createdAt t ≠ updatedAt t.
Proof.
  split; [reflexivity|]. intros t [= <-]. discriminate.
Qed.

(** ** The two backends side by side (C2) *)













(** The filter clauses of the in-memory [getAllTasks]. *)
Definition kept (status_filter search_filter : option string) (store : list Task) :
    list Task :=
  let by_status :=
    match Js.truthy_string status_filter with
    | Some s => filter (λ task, Js.toLowerCase (status_text task) = Js.toLowerCase s) store
    | None => store
    end in
  match Js.truthy_string search_filter with
  | Some q => filter (λ task, Js.includes (Js.toLowerCase (title task))
                                          (Js.toLowerCase q) = true) by_status
  | None => by_status
  end.




(** A call of one of the seven store operations, with its arguments
    ([now] is the clock reading of [updateTask]). *)
Inductive Call :=
| GetAllTasks (page limit : option Z) (status_filter search_filter : option string)
| GetTaskById (i : string)
| AddTask (task : Task)
| UpdateTask (i : string) (updates : PartialTask) (now : Z)
| DeleteTask (i : string)
| GetTaskCount
| ClearAllTasks.


(** One call on the SQLite backend. *)
Definition durable_call (c : Call) (table : list Task) : Outcome * list Task :=
  match c with
  | GetAllTasks page limit st q => (Listed (Durable.getAllTasks page limit st q table), table)
  | GetTaskById i => (Found (Durable.getTaskById i table), table)
  | AddTask task =>
      let r := Durable.addTask task table in
      (match fst r with Some t => Stored t | None => Fault end, snd r)
  | UpdateTask i updates now =>
      let r := Durable.updateTask i updates now table in (Found (fst r), snd r)
  | DeleteTask i => let r := Durable.deleteTask i table in (Flag (fst r), snd r)
  | GetTaskCount => (Count (Durable.getTaskCount table), table)
  | ClearAllTasks => (Done, Durable.clearAllTasks table)
  end.





(** A search string with a [LIKE] wildcard is answered differently too:
    ["_"] matches no title of the scenario in memory and every title in
    SQLite. *)
Lemma wildcard_search_differs :
  tasks (Volatile.getAllTasks None None None (Some "_") scenario) = []
  ∧ tasks (Durable.getAllTasks None None None (Some "_") scenario)
    = [scenario_C; scenario_B; scenario_A].
Proof. split; reflexivity. Qed.





(** * The rest of the request path

    The handlers of the controller not embedded above, the middleware of
    [middleware/validation.ts], the routes that chain them, and the error
    handler of [server.ts]. *)

(** ** The other handlers of [controllers/taskController.ts]

    A handler's answer is [res.status(code).json({success, message,
    data})].  The store functions never throw, so the [catch] branch of a
    handler (status 500) is not reached and is left out. *)

Module Handlers.

Inductive Payload :=
| NoData
| TaskData (task : Task).

Record Response := mkResponse {
  statusCode : Z;
  success : bool;
  message : string;
  payload : Payload
}.

(** Modelled from the spec: the interface [UpdateTaskRequest] of
    [models/task.ts], which is not among the sources; it has the three
    optional properties the API schema of the same name lists. *)
Record UpdateTaskRequest := mkUpdate {
  u_title : option string;
  u_description : option string;
  u_status : option TaskStatus
}.

(** [req.body] handed to [updateTask] as a [Partial<Task>]. *)
Definition as_partial (updates : UpdateTaskRequest) : PartialTask :=
  mkPartial None (u_title updates) (u_description updates) (u_status updates) None None.

Definition not_found : Response := mkResponse 404 false "Task not found" NoData.

(** [createTask], with the response it sends. *)
Definition createTask (body : Controller.CreateTaskRequest) (uuid : string)
    (now1 now2 : Z) (store : list Task) : Response * list Task :=
  let created := Controller.createTask body uuid now1 now2 store in
  (mkResponse 201 true "Task created successfully" (TaskData (fst created)),
   snd created).

Definition getTaskByIdController (i : string) (store : list Task) : Response :=
  match Volatile.getTaskById i store with
  | None => not_found
  | Some task => mkResponse 200 true "Task retrieved successfully" (TaskData task)
  end.

Definition updateTaskController (i : string) (updates : UpdateTaskRequest) (now : Z)
    (store : list Task) : Response * list Task :=
  let updated := Volatile.updateTask i (as_partial updates) now store in
  match fst updated with
  | None => (not_found, snd updated)
  | Some updatedTask =>
      (mkResponse 200 true "Task updated successfully" (TaskData updatedTask),
       snd updated)
  end.

Definition deleteTaskController (i : string) (store : list Task) : Response * list Task :=
  let deleted := Volatile.deleteTask i store in
  if fst deleted
  then (mkResponse 200 true "Task deleted successfully" NoData, snd deleted)
  else (not_found, snd deleted).

End Handlers.

(** ** [middleware/validation.ts]

    A request body is the object [express.json()] parsed: its keys, each
    once, with their values.  Of a value only one thing matters to the
    schemas: whether it is a string, and which.  The Joi rules are read
    with Joi's defaults: a key the schema does not list is an error, an
    empty string is an error unless allowed, [valid] compares exactly. *)

Module Validation.

Inductive Json :=
| JString (s : string)
| JOther.

Abbreviation Body := (list (string * Json)).

(** [body[key]] *)
Fixpoint member (body : Body) (key : string) : option Json :=
  match body with
  | [] => None
  | (k, v) :: rest => if decide (k = key) then Some v else member rest key
  end.

(** [Joi.string().min(lo).max(hi)], with [.allow("")] when [allow_empty]. *)
Definition joi_string (lo hi : nat) (allow_empty : bool) (v : Json) : option string :=
  match v with
  | JString s =>
      if decide (s = "") then (if allow_empty then Some s else None)
      else if decide (lo ≤ String.length s ≤ hi)%nat then Some s else None
  | JOther => None
  end.

(** [Joi.string().valid(...Object.values(TaskStatus))] *)
Definition joi_status (v : Json) : option TaskStatus :=
  match v with
  | JString s =>
      if decide (s = status_value PENDING) then Some PENDING
      else if decide (s = status_value IN_PROGRESS) then Some IN_PROGRESS
      else if decide (s = status_value COMPLETED) then Some COMPLETED
      else None
  | JOther => None
  end.

(** A key with [.optional()]: absent is fine, present must pass. *)
Definition optional {A} (rule : Json → option A) (v : option Json) : option (option A) :=
  match v with
  | None => Some None
  | Some v => Some <$> rule v
  end.

(** The keys of a body are among those a schema lists. *)
Definition known_keys (keys : list string) (body : Body) : bool :=
  forallb (λ kv, bool_decide (fst kv ∈ keys)) body.

(** [createTaskSchema.validate(body)]: the validated value, or [None] for
    an error. *)
Definition createTaskSchema (body : Body) : option Controller.CreateTaskRequest :=
  if known_keys ["title"; "description"; "status"] body then
    title ← member body "title" ≫= joi_string 1 100 false;
    description ← optional (joi_string 0 500 true) (member body "description");
    status ← optional joi_status (member body "status");
    Some (Controller.mkCreate title description status)
  else None.

(** [updateTaskSchema.validate(body)]: every key optional, at least one
    key ([.min(1)]). *)
Definition updateTaskSchema (body : Body) : option Handlers.UpdateTaskRequest :=
  if known_keys ["title"; "description"; "status"] body then
    title ← optional (joi_string 1 100 false) (member body "title");
    description ← optional (joi_string 0 500 true) (member body "description");
    status ← optional joi_status (member body "status");
    if decide (1 ≤ length body)%nat
    then Some (Handlers.mkUpdate title description status)
    else None
  else None.

Definition validation_error : Handlers.Response :=
  Handlers.mkResponse 400 false "Validation error" Handlers.NoData.

Definition invalid_id : Handlers.Response :=
  Handlers.mkResponse 400 false "Invalid task ID format" Handlers.NoData.

(** [validateBody(schema)]: answers 400, or hands the validated value on
    ([req.body = value; next()]). *)
Definition validateBody {A} (schema : Body → option A) (body : Body) :
    Handlers.Response + A :=
  match schema body with
  | None => inl validation_error
  | Some value => inr value
  end.

(** A character class of [uuidRegex], read under the flag [i]. *)
Inductive CharClass :=
| Hex          (* [0-9a-f] *)
| Variant      (* [89ab] *)
| Literal (c : ascii).

Definition is_digit (c : ascii) : bool :=
  (48 <=? nat_of_ascii c)%nat && (nat_of_ascii c <=? 57)%nat.

Definition in_class (cls : CharClass) (c : ascii) : bool :=
  match cls with
  | Hex => is_digit c
           || ((97 <=? nat_of_ascii (Js.lower_char c))%nat
               && (nat_of_ascii (Js.lower_char c) <=? 102)%nat)
  | Variant => bool_decide (Js.lower_char c ∈ ["8"; "9"; "a"; "b"]%char)
  | Literal l => bool_decide (Js.lower_char c = Js.lower_char l)
  end.

(** [^[0-9a-f]{8}-[0-9a-f]{4}-4[0-9a-f]{3}-[89ab][0-9a-f]{3}-[0-9a-f]{12}$] *)
Definition uuidRegex : list CharClass :=
  replicate 8 Hex ++ [Literal "-"] ++ replicate 4 Hex ++ [Literal "-"; Literal "4"]
  ++ replicate 3 Hex ++ [Literal "-"; Variant] ++ replicate 3 Hex ++ [Literal "-"]
  ++ replicate 12 Hex.

(** [regex.test(s)] for a regex that is a sequence of single-character
    classes between [^] and [$]: the string has one character per class. *)
Fixpoint test (regex : list CharClass) (s : string) : bool :=
  match regex, s with
  | [], EmptyString => true
  | cls :: regex', String c s' => in_class cls c && test regex' s'
  | _, _ => false
  end.

(** [validateUUID]: [None] is [next()]. *)
Definition validateUUID (i : string) : option Handlers.Response :=
  if test uuidRegex i then None else Some invalid_id.

End Validation.

(** ** [routes/taskRoutes.ts]: the middleware chains of the task routes *)

Module Routes.

(** [router.post("/", validateBody(createTaskSchema), createTask)] *)
Definition post_task (body : Validation.Body) (uuid : string) (now1 now2 : Z)
    (store : list Task) : Handlers.Response * list Task :=
  match Validation.validateBody Validation.createTaskSchema body with
  | inl refused => (refused, store)
  | inr body => Handlers.createTask body uuid now1 now2 store
  end.

(** [router.get("/:id", validateUUID, getTaskByIdController)] *)
Definition get_task (i : string) (store : list Task) : Handlers.Response :=
  match Validation.validateUUID i with
  | Some refused => refused
  | None => Handlers.getTaskByIdController i store
  end.

(** [router.put("/:id", validateUUID, validateBody(updateTaskSchema),
    updateTaskController)] *)
Definition put_task (i : string) (body : Validation.Body) (now : Z)
    (store : list Task) : Handlers.Response * list Task :=
  match Validation.validateUUID i with
  | Some refused => (refused, store)
  | None =>
      match Validation.validateBody Validation.updateTaskSchema body with
      | inl refused => (refused, store)
      | inr updates => Handlers.updateTaskController i updates now store
      end
  end.

(** [router.delete("/:id", validateUUID, deleteTaskController)] *)
Definition delete_task (i : string) (store : list Task) : Handlers.Response * list Task :=
  match Validation.validateUUID i with
  | Some refused => (refused, store)
  | None => Handlers.deleteTaskController i store
  end.

End Routes.

(** ** The global error handler of [server.ts] *)

Module Server.

(** The properties of [error] the handler reads. *)
Record JsError := mkError {
  e_status : option Z;
  e_message : option string;
  e_code : option string;
  e_type : option string
}.

(** What the handler sends: the status, the [message] of the body
    ([success] is always [false]), and whether [stack] and [details] are
    spread into the body. *)
Record ErrorResponse := mkErrorResponse {
  statusCode : Z;
  message : string;
  with_details : bool
}.

(** [node_env] is [process.env.NODE_ENV]. *)
Definition errorHandler (error : JsError) (node_env : option string) : ErrorResponse :=
  let statusCode := default 500 (Js.truthy_number (e_status error)) in
  let message := default "Internal server error" (Js.truthy_string (e_message error)) in
  let '(statusCode, message) :=
    if decide (e_code error = Some "SQLITE_CANTOPEN")
    then (503, "Database connection failed") else (statusCode, message) in
  let '(statusCode, message) :=
    if decide (e_type error = Some "entity.parse.failed")
    then (400, "Invalid JSON format") else (statusCode, message) in
  mkErrorResponse statusCode message (bool_decide (node_env = Some "development")).

End Server.

(** * Further properties of the store operations *)

Lemma volatile_getTaskById_app i store t :
  Volatile.getTaskById i (store ++ [t])
  = match Volatile.getTaskById i store with
    | Some found => Some found
    | None => if decide (id t = i) then Some t else None
    end.
Proof.
  unfold Volatile.getTaskById.
  destruct (list_find (λ task, id task = i) store) as [[k found]|] eqn:Hfind.
  - by erewrite list_find_app_l.
  - rewrite list_find_app_r by done. simpl. by case_decide.
Qed.

(** X1: in the in-memory store, adding a task under an id the store does
    not hold returns the task, makes [getTaskById] of that id return it,
    leaves the lookup of every other id as it was, and raises the count
    by one. *)
Theorem volatile_add_then_get (task : Task) (store : list Task) :
  id task ∉ id <$> store →
  let added := Volatile.addTask task store in
  fst added = task
  ∧ Volatile.getTaskById (id task) (snd added) = Some task
  ∧ (∀ j, j ≠ id task → Volatile.getTaskById j (snd added) = Volatile.getTaskById j store)
  ∧ Volatile.getTaskCount (snd added) = Volatile.getTaskCount store + 1.
Proof.
  intros Hfresh. simpl. split_and!.
  - done.
  - by apply volatile_getTaskById_app_fresh.
  - intros j Hj. rewrite volatile_getTaskById_app.
    destruct (Volatile.getTaskById j store); [done|]. by rewrite decide_False.
  - unfold Volatile.getTaskCount. rewrite length_app. simpl. lia.
Qed.

Lemma volatile_add_then_get_witness :
  let added := Volatile.addTask scenario_C [scenario_A; scenario_B] in
  fst added = scenario_C
  ∧ Volatile.getTaskById "c" (snd added) = Some scenario_C
  ∧ (∀ j, j ≠ "c" → Volatile.getTaskById j (snd added)
                     = Volatile.getTaskById j [scenario_A; scenario_B])
  ∧ Volatile.getTaskCount (snd added) = Volatile.getTaskCount [scenario_A; scenario_B] + 1.
Proof.
  apply (volatile_add_then_get scenario_C [scenario_A; scenario_B]).
  by apply (bool_decide_unpack _).
Defined.

(** X2: the in-memory [addTask] checks nothing: a task added under an id
    the store already holds is appended (the count grows), but
    [getTaskById] of that id still returns the older record, so the new
    one cannot be read back by its id. *)
Theorem volatile_add_duplicate_shadowed (task : Task) (store : list Task) :
  id task ∈ id <$> store →
  let added := Volatile.addTask task store in
  Volatile.getTaskById (id task) (snd added) = Volatile.getTaskById (id task) store
  ∧ Volatile.getTaskById (id task) store ≠ None
  ∧ Volatile.getTaskCount (snd added) = Volatile.getTaskCount store + 1.
Proof.
  intros Hin. simpl.
  assert (Volatile.getTaskById (id task) store ≠ None) as Hsome
    by (rewrite volatile_getTaskById_None; tauto).
  split_and!; [|done|].
  - rewrite volatile_getTaskById_app.
    by destruct (Volatile.getTaskById (id task) store).
  - unfold Volatile.getTaskCount. rewrite length_app. simpl. lia.
Qed.

Definition scenario_A' : Task := mkTask "a" "Another" "x" COMPLETED 5000 5000.

Lemma volatile_add_duplicate_shadowed_witness :
  let added := Volatile.addTask scenario_A' scenario in
  Volatile.getTaskById "a" (snd added) = Volatile.getTaskById "a" scenario
  ∧ Volatile.getTaskById "a" scenario ≠ None
  ∧ Volatile.getTaskCount (snd added) = Volatile.getTaskCount scenario + 1.
Proof.
  apply (volatile_add_duplicate_shadowed scenario_A' scenario).
  by apply (bool_decide_unpack _).
Defined.

(** X3: the SQLite [addTask] succeeds exactly when the id is new: then it
    returns the task, the task is read back by [getTaskById] and the count
    grows by one; otherwise the insert fails and the table is unchanged. *)
Theorem durable_add_fresh_or_fail (task : Task) (table : list Task) :
  let added := Durable.addTask task table in
  (id task ∉ id <$> table →
     fst added = Some task
     ∧ Durable.getTaskById (id task) (snd added) = Some task
     ∧ Durable.getTaskCount (snd added) = Durable.getTaskCount table + 1)
  ∧ (id task ∈ id <$> table → fst added = None ∧ snd added = table).
Proof.
  unfold Durable.addTask. split.
  - intros Hfresh. rewrite decide_False by done. simpl. split_and!; [done| |].
    + rewrite getTaskById_agree. by apply volatile_getTaskById_app_fresh.
    + unfold Durable.getTaskCount. rewrite length_app. simpl. lia.
  - intros Hin. by rewrite decide_True.
Qed.

(** X4: [updateTask] of an id the store does not hold returns "no such
    task" and leaves the store as it is, in both backends and for every
    patch. *)
Theorem update_unknown_id (i : string) (updates : PartialTask) (now : Z)
    (store : list Task) :
  i ∉ id <$> store →
  Volatile.updateTask i updates now store = (None, store)
  ∧ Durable.updateTask i updates now store = (None, store).
Proof.
  intros Hno. split.
  - unfold Volatile.updateTask.
    apply volatile_getTaskById_None in Hno. unfold Volatile.getTaskById in Hno.
    apply fmap_None in Hno. by rewrite Hno.
  - unfold Durable.updateTask. apply durable_getTaskById_None in Hno. by rewrite Hno.
Qed.

Lemma update_unknown_id_witness :
  Volatile.updateTask "zz" rename_patch 7 scenario = (None, scenario)
  ∧ Durable.updateTask "zz" rename_patch 7 scenario = (None, scenario).
Proof.
  apply (update_unknown_id "zz" rename_patch 7 scenario).
  by apply (bool_decide_unpack _).
Defined.

Lemma volatile_updateTask_found i updates now store t :
  Volatile.getTaskById i store = Some t →
  ∃ k, store !! k = Some t
       ∧ (∀ j y, store !! j = Some y → (j < k)%nat → id y ≠ i)
       ∧ Volatile.updateTask i updates now store
         = (Some (spread t updates now), <[k := spread t updates now]> store).
Proof.
  unfold Volatile.getTaskById, Volatile.updateTask. intros Hget.
  destruct (list_find (λ task, id task = i) store) as [[k t']|] eqn:Hfind; [|done].
  injection Hget as ->. apply list_find_Some in Hfind as (Hk & _ & Hfirst).
  exists k. split_and!; [done| |done]. intros j y Hy Hlt. by eapply Hfirst.
Qed.

(** X5: in the in-memory store, without any assumption on the ids: when
    [getTaskById] finds a task and the patch has no key [id], [updateTask]
    returns the merged record stamped with the current time,
    [getTaskById] of the same id returns that record afterwards, and the
    number of records and the sequence of their ids are unchanged. *)
Theorem volatile_update_read_back (i : string) (updates : PartialTask) (now : Z)
    (store : list Task) (t : Task) :
  Volatile.getTaskById i store = Some t → p_id updates = None →
  let updated := Volatile.updateTask i updates now store in
  fst updated = Some (spread t updates now)
  ∧ updatedAt (spread t updates now) = now
  ∧ Volatile.getTaskById i (snd updated) = fst updated
  ∧ length (snd updated) = length store
  ∧ id <$> snd updated = id <$> store.
Proof.
  intros Hget Hid.
  assert (id t = i) as Hti.
  { pose proof Hget as Hd. rewrite <- getTaskById_agree in Hd.
    by apply getTaskById_Some_id in Hd as [? _]. }
  destruct (volatile_updateTask_found i updates now store t Hget) as (k & Hk & Hfirst & ->).
  simpl. split_and!; [done|done| |by rewrite length_insert|].
  - unfold Volatile.getTaskById.
    assert (list_find (λ task, id task = i) (<[k:=spread t updates now]> store)
            = Some (k, spread t updates now)) as ->; [|done].
    apply list_find_Some. split_and!.
    + apply list_lookup_insert_eq. by eapply lookup_lt_Some.
    + simpl. by rewrite Hid.
    + intros j y Hy Hlt. rewrite list_lookup_insert_ne in Hy by lia. by eapply Hfirst.
  - rewrite list_fmap_insert. apply list_insert_id.
    rewrite list_lookup_fmap, Hk. simpl. by rewrite Hid.
Qed.

Lemma volatile_update_read_back_witness :
  let patch := mkPartial None (Some "B2") None None None None in
  let updated := Volatile.updateTask "b" patch 4000 scenario in
  fst updated = Some (spread scenario_B patch 4000)
  ∧ updatedAt (spread scenario_B patch 4000) = 4000
  ∧ Volatile.getTaskById "b" (snd updated) = fst updated
  ∧ length (snd updated) = length scenario
  ∧ id <$> snd updated = id <$> scenario.
Proof.
  apply (volatile_update_read_back "b" (mkPartial None (Some "B2") None None None None)
           4000 scenario scenario_B); reflexivity.
Defined.

(** X6: the SQLite [updateTask], for every patch (also one that names
    [id], [createdAt] or [updatedAt], and the empty one): the returned
    record is the stored one with the supplied [title], [description] and
    [status], its own [id] and [createdAt], and [updatedAt] set to the
    current time; reading the id back returns the same record; the ids
    and creation dates of the table are unchanged, and so is every row
    with another id. *)
Theorem durable_update_merge (i : string) (updates : PartialTask) (now : Z)
    (table : list Task) :
  let updated := Durable.updateTask i updates now table in
  fst updated = patched updates now <$> Durable.getTaskById i table
  ∧ Durable.getTaskById i (snd updated) = fst updated
  ∧ id <$> snd updated = id <$> table
  ∧ createdAt <$> snd updated = createdAt <$> table
  ∧ filter (λ row, id row ≠ i) (snd updated) = filter (λ row, id row ≠ i) table.
Proof.
  cbv zeta. rewrite durable_updateTask_patched. simpl. split_and!.
  - done.
  - rewrite getTaskById_fmap by (intros t; by case_decide).
    destruct (Durable.getTaskById i table) as [t|] eqn:Hget; [|done].
    simpl. apply getTaskById_Some_id in Hget as [Hid _]. by rewrite decide_True.
  - rewrite <- list_fmap_compose. apply list_fmap_ext. intros k row _. simpl.
    by case_decide.
  - rewrite <- list_fmap_compose. apply list_fmap_ext. intros k row _. simpl.
    by case_decide.
  - induction table as [|row table IH]; [done|].
    rewrite fmap_cons, !filter_cons, IH.
    destruct (decide (id row = i)) as [Hi|Hi]; simpl.
    + rewrite !decide_False; [done| |]; intros Hne; by apply Hne.
    + by rewrite !decide_True.
Qed.

(** X7: in an in-memory store with unique ids, for every patch without the
    keys [id] and [createdAt] (also the empty one), [updateTask] returns
    the stored record with the supplied [title], [description] and
    [status], its own [id] and [createdAt], and [updatedAt] set to the
    current time, and changes no other record. *)
Theorem volatile_update_merge (i : string) (updates : PartialTask) (now : Z)
    (store : list Task) :
  NoDup (id <$> store) → p_id updates = None → p_createdAt updates = None →
  let updated := Volatile.updateTask i updates now store in
  fst updated = patched updates now <$> Volatile.getTaskById i store
  ∧ snd updated
    = (λ row, if decide (id row = i) then patched updates now row else row) <$> store.
Proof.
  intros Hnd Hid Hcr. cbv zeta. by rewrite volatile_updateTask_patched.
Qed.

Lemma volatile_update_merge_witness :
  let updated := Volatile.updateTask "b" empty_patch 4000 scenario in
  fst updated = patched empty_patch 4000 <$> Volatile.getTaskById "b" scenario
  ∧ snd updated
    = (λ row, if decide (id row = "b") then patched empty_patch 4000 row else row)
        <$> scenario.
Proof.
  apply (volatile_update_merge "b" empty_patch 4000 scenario);
    [by apply (bool_decide_unpack _)|reflexivity|reflexivity].
Defined.

Lemma volatile_deleteTask_cons i a store :
  Volatile.deleteTask i (a :: store)
  = if decide (id a = i) then (true, store)
    else (fst (Volatile.deleteTask i store), a :: snd (Volatile.deleteTask i store)).
Proof.
  unfold Volatile.deleteTask. simpl. case_decide; [done|].
  by destruct (list_find _ store) as [[k t]|].
Qed.

Lemma volatile_deleteTask_first i store :
  fst (Volatile.deleteTask i store) = bool_decide (i ∈ id <$> store)
  ∧ length (filter (λ t, id t = i) (snd (Volatile.deleteTask i store)))
    = pred (length (filter (λ t, id t = i) store))
  ∧ filter (λ t, id t ≠ i) (snd (Volatile.deleteTask i store))
    = filter (λ t, id t ≠ i) store
  ∧ snd (Volatile.deleteTask i store) `sublist_of` store.
Proof.
  induction store as [|a store (IH1 & IH2 & IH3 & IH4)].
  - split_and!; done.
  - rewrite volatile_deleteTask_cons, fmap_cons.
    destruct (decide (id a = i)) as [Hi|Hi]; simpl.
    + rewrite !filter_cons, decide_True, (decide_False (P := id a ≠ i)) by tauto.
      split_and!; [|done|done|by apply sublist_cons].
      symmetry. apply bool_decide_eq_true. apply elem_of_cons. by left.
    + rewrite !filter_cons, !(decide_False (P := id a = i)), !decide_True by done.
      split_and!.
      * rewrite IH1. apply bool_decide_ext. rewrite elem_of_cons. naive_solver.
      * done.
      * by rewrite IH3.
      * by apply sublist_skip.
Qed.
















(** X13: the SQLite backend keeps the ids of its table unique: from a
    table with unique ids, every call of every operation, with any
    arguments, leaves a table with unique ids. *)
Theorem durable_ids_stay_unique (c : Call) (table : list Task) :
  NoDup (id <$> table) → NoDup (id <$> snd (durable_call c table)).
Proof.
  intros Hnd. destruct c as [pg limit st q|i|task|i updates now|i| |];
    unfold durable_call; cbv zeta; try done.
  - unfold Durable.addTask. case_decide; [done|]. simpl.
    rewrite fmap_app. apply NoDup_app. split_and!; [done| |apply NoDup_singleton].
    intros x Hx [->|[]%elem_of_nil]%elem_of_cons. done.
  - rewrite durable_updateTask_patched. simpl. rewrite <- list_fmap_compose.
    erewrite list_fmap_ext; [exact Hnd|]. intros k row _. simpl. by case_decide.
  - rewrite durable_deleteTask_spec. simpl. by apply NoDup_ids_filter.
  - apply NoDup_nil_2.
Qed.

Lemma durable_ids_stay_unique_witness :
  NoDup (id <$> snd (durable_call (AddTask scenario_A') scenario)).
Proof.
  apply (durable_ids_stay_unique (AddTask scenario_A') scenario).
  by apply (bool_decide_unpack _).
Defined.



Lemma lower_char_percent d : Js.lower_char "%" = Js.lower_char d → d = "%"%char.
Proof. destruct d as [[] [] [] [] [] [] [] []]; (done || discriminate). Qed.

Lemma lower_char_underscore d : Js.lower_char "_" = Js.lower_char d → d = "_"%char.
Proof. destruct d as [[] [] [] [] [] [] [] []]; (done || discriminate). Qed.





(** X16: [getTaskById] is the same function in both backends; what it
    returns is a record of the store that has the requested id, the first
    such record, and it returns "no such task" exactly when no record has
    the id. *)
Theorem getTaskById_first_match (i : string) (store : list Task) :
  Durable.getTaskById i store = Volatile.getTaskById i store
  ∧ match Volatile.getTaskById i store with
    | Some t =>
        id t = i
        ∧ ∃ k, store !! k = Some t ∧ ∀ j y, store !! j = Some y → (j < k)%nat → id y ≠ i
    | None => i ∉ id <$> store
    end.
Proof.
  split; [apply getTaskById_agree|].
  destruct (Volatile.getTaskById i store) as [t|] eqn:Hget.
  - unfold Volatile.getTaskById in Hget.
    destruct (list_find (λ task, id task = i) store) as [[k t']|] eqn:Hfind; [|done].
    injection Hget as ->. apply list_find_Some in Hfind as (Hk & Hid & Hfirst).
    split; [done|]. exists k. split; [done|]. intros j y Hy Hlt. by eapply Hfirst.
  - by apply volatile_getTaskById_None.
Qed.

(** * Properties of the request path *)

(** X17: for an id the store does not hold, the handlers of
    [GET /:id], [PUT /:id] and [DELETE /:id] all answer 404 "Task not
    found", and the store is left as it is. *)
Theorem handlers_unknown_id (i : string) (updates : Handlers.UpdateTaskRequest)
    (now : Z) (store : list Task) :
  i ∉ id <$> store →
  Handlers.getTaskByIdController i store = Handlers.not_found
  ∧ Handlers.updateTaskController i updates now store = (Handlers.not_found, store)
  ∧ Handlers.deleteTaskController i store = (Handlers.not_found, store)
  ∧ Handlers.statusCode Handlers.not_found = 404.
Proof.
  intros Hno.
  pose proof (proj2 (volatile_getTaskById_None i store) Hno) as Hget.
  unfold Handlers.getTaskByIdController, Handlers.updateTaskController,
    Handlers.deleteTaskController, Volatile.updateTask, Volatile.deleteTask.
  rewrite Hget. unfold Volatile.getTaskById in Hget. apply fmap_None in Hget.
  by rewrite Hget.
Qed.

Lemma handlers_unknown_id_witness :
  Handlers.getTaskByIdController "zz" scenario = Handlers.not_found
  ∧ Handlers.updateTaskController "zz" (Handlers.mkUpdate (Some "T") None None) 7 scenario
    = (Handlers.not_found, scenario)
  ∧ Handlers.deleteTaskController "zz" scenario = (Handlers.not_found, scenario)
  ∧ Handlers.statusCode Handlers.not_found = 404.
Proof.
  apply (handlers_unknown_id "zz" (Handlers.mkUpdate (Some "T") None None) 7 scenario).
  by apply (bool_decide_unpack _).
Defined.

Lemma deleteTaskController_unique i store :
  NoDup (id <$> store) →
  Handlers.deleteTaskController i store
  = (if bool_decide (i ∈ id <$> store)
     then Handlers.mkResponse 200 true "Task deleted successfully" Handlers.NoData
     else Handlers.not_found,
     filter (λ t, id t ≠ i) store).
Proof.
  intros Hnd. unfold Handlers.deleteTaskController.
  rewrite volatile_deleteTask_spec by done. simpl. by destruct (bool_decide _).
Qed.

(** X18: [DELETE /:id] answers 200 exactly when a record has the id and
    404 otherwise; in a store with unique ids, after a 200 the same id is
    answered 404 by [GET /:id] and by a second [DELETE /:id], which
    changes nothing. *)
Theorem delete_handler_then_gone (i : string) (store : list Task) :
  let deleted := Handlers.deleteTaskController i store in
  Handlers.statusCode (fst deleted) = (if bool_decide (i ∈ id <$> store) then 200 else 404)
  ∧ (NoDup (id <$> store) →
       Handlers.getTaskByIdController i (snd deleted) = Handlers.not_found
       ∧ Handlers.deleteTaskController i (snd deleted) = (Handlers.not_found, snd deleted)).
Proof.
  cbv zeta. split.
  - unfold Handlers.deleteTaskController.
    destruct (volatile_deleteTask_first i store) as (-> & _).
    by destruct (bool_decide _).
  - intros Hnd. rewrite deleteTaskController_unique by done. simpl.
    pose proof (ids_filter_other i store) as Hgone.
    rewrite deleteTaskController_unique by by apply NoDup_ids_filter.
    rewrite (bool_decide_eq_false_2 _ Hgone), (filter_other_ids _ _ Hgone).
    split; [|done]. unfold Handlers.getTaskByIdController.
    by rewrite (proj2 (volatile_getTaskById_None _ _) Hgone).
Qed.

(** X19: the [pagination] object of [GET /tasks] is sent exactly when
    [page] and [limit] are both given and not 0; it then repeats the
    request's page and limit, and its [totalItems] is the response's
    [total] with [totalPages = ceil(total / limit)].  Without it, the
    response holds the whole filtered set: [total] is the length of
    [data]. *)
Theorem list_response_pagination (query : Controller.Query) (store : list Task) :
  let response := Controller.getAllTasksController query store in
  match Js.truthy_number (Controller.q_page query),
        Js.truthy_number (Controller.q_limit query) with
  | Some p, Some l =>
      Controller.pagination response
      = Some (Controller.mkPagination (Some p)
                (Some (Js.ceil_div (Controller.r_total response) l))
                (Controller.r_total response) l)
      ∧ (0 < p → 0 < l → Z.of_nat (length (Controller.data response)) ≤ l)
  | _, _ =>
      Controller.pagination response = None
      ∧ Controller.r_total response = Z.of_nat (length (Controller.data response))
  end.
Proof.
  cbv zeta. unfold Controller.getAllTasksController. simpl.
  rewrite getAllTasks_paging.
  destruct (Js.truthy_number (Controller.q_page query)) as [p|],
           (Js.truthy_number (Controller.q_limit query)) as [l|]; simpl; try done.
  split; [done|]. intros Hp Hl. rewrite slice_page, length_take by done. lia.
Qed.

(** X20: the error handler of [server.ts] never answers with status 0 or
    an empty message.  A body-parse failure is answered 400 "Invalid JSON
    format" even for an error that also carries [SQLITE_CANTOPEN]; a
    database that cannot be opened is answered 503 whatever [status] and
    [message] the error has; any other error is answered with its own
    status and message, or 500 and "Internal server error" where they are
    missing, 0 or empty.  [stack] and [details] are sent in development
    only. *)
Theorem error_handler_answers (error : Server.JsError) (node_env : option string) :
  let answer := Server.errorHandler error node_env in
  Server.statusCode answer ≠ 0
  ∧ Server.message answer ≠ ""
  ∧ (Server.e_type error = Some "entity.parse.failed" →
       Server.statusCode answer = 400 ∧ Server.message answer = "Invalid JSON format")
  ∧ (Server.e_type error ≠ Some "entity.parse.failed" →
     Server.e_code error = Some "SQLITE_CANTOPEN" →
       Server.statusCode answer = 503
       ∧ Server.message answer = "Database connection failed")
  ∧ (Server.e_type error ≠ Some "entity.parse.failed" →
     Server.e_code error ≠ Some "SQLITE_CANTOPEN" →
       Server.statusCode answer = default 500 (Js.truthy_number (Server.e_status error))
       ∧ Server.message answer
         = default "Internal server error" (Js.truthy_string (Server.e_message error)))
  ∧ (Server.e_status error = Some 0 ∨ Server.e_status error = None →
     Server.e_type error ≠ Some "entity.parse.failed" →
     Server.e_code error ≠ Some "SQLITE_CANTOPEN" → Server.statusCode answer = 500)
  ∧ (Server.with_details answer = true ↔ node_env = Some "development").
Proof.
  cbv zeta. unfold Server.errorHandler.
  destruct (decide (Server.e_code error = Some "SQLITE_CANTOPEN")) as [Hc|Hc];
    destruct (decide (Server.e_type error = Some "entity.parse.failed")) as [Ht|Ht];
    simpl; (split_and!; try done; try apply bool_decide_eq_true).
  - destruct (Server.e_status error) as [[|n|n]|]; simpl; done.
  - destruct (Server.e_message error) as [[|c m]|]; simpl; done.
  - intros [->| ->] _ _; done.
Qed.

(** ** Task ids ([validateUUID]) *)

Lemma test_length regex s :
  Validation.test regex s = true → String.length s = length regex.
Proof.
  revert s. induction regex as [|cls regex IH]; intros [|c s]; simpl; try done.
  intros [_ H]%andb_true_iff. by rewrite (IH s H).
Qed.

Lemma test_get regex s k cls :
  Validation.test regex s = true → regex !! k = Some cls →
  ∃ c, String.get k s = Some c ∧ Validation.in_class cls c = true.
Proof.
  revert s k. induction regex as [|cls' regex IH]; intros [|c s] k; simpl; try done.
  intros [Hc H]%andb_true_iff Hk. destruct k as [|k]; simpl in *.
  - injection Hk as ->. by exists c.
  - by apply IH.
Qed.

Lemma lower_lower_char c : Js.lower_char (Js.lower_char c) = Js.lower_char c.
Proof. destruct c as [[] [] [] [] [] [] [] []]; reflexivity. Qed.

Lemma in_class_lower cls c :
  Validation.in_class cls (Js.lower_char c) = Validation.in_class cls c.
Proof.
  destruct cls as [| |l]; simpl; rewrite ?lower_lower_char; try done.
  destruct c as [[] [] [] [] [] [] [] []]; reflexivity.
Qed.

Lemma in_class_upper cls c :
  Validation.in_class cls (Js.upper_char c) = Validation.in_class cls c.
Proof.
  destruct cls as [| |l]; simpl; rewrite ?lower_upper_char; try done.
  destruct c as [[] [] [] [] [] [] [] []]; reflexivity.
Qed.

Lemma test_lower regex s :
  Validation.test regex (Js.toLowerCase s) = Validation.test regex s.
Proof.
  revert s. induction regex as [|cls regex IH]; intros [|c s]; simpl; try done.
  by rewrite in_class_lower, IH.
Qed.

Lemma test_upper regex s :
  Validation.test regex (Js.toUpperCase s) = Validation.test regex s.
Proof.
  revert s. induction regex as [|cls regex IH]; intros [|c s]; simpl; try done.
  by rewrite in_class_upper, IH.
Qed.

Lemma in_class_hyphen c : Validation.in_class (Validation.Literal "-") c = true → c = "-"%char.
Proof. destruct c as [[] [] [] [] [] [] [] []]; (done || discriminate). Qed.

Lemma in_class_four c : Validation.in_class (Validation.Literal "4") c = true → c = "4"%char.
Proof. destruct c as [[] [] [] [] [] [] [] []]; (done || discriminate). Qed.

(** X21: an id that [validateUUID] lets through has 36 characters, with a
    hyphen at the positions 8, 13, 18 and 23 and the version digit 4 at
    position 14; any other id is answered 400 "Invalid task ID format". *)
Theorem uuid_shape (i : string) :
  match Validation.validateUUID i with
  | None =>
      String.length i = 36%nat
      ∧ String.get 8 i = Some "-"%char ∧ String.get 13 i = Some "-"%char
      ∧ String.get 18 i = Some "-"%char ∧ String.get 23 i = Some "-"%char
      ∧ String.get 14 i = Some "4"%char
  | Some answer => answer = Validation.invalid_id ∧ Handlers.statusCode answer = 400
  end.
Proof.
  unfold Validation.validateUUID.
  destruct (Validation.test Validation.uuidRegex i) eqn:Htest; [|done].
  split; [by rewrite (test_length _ _ Htest)|].
  split_and!.
  - destruct (test_get _ _ 8 (Validation.Literal "-") Htest eq_refl) as (c & -> & Hc).
    by rewrite (in_class_hyphen c Hc).
  - destruct (test_get _ _ 13 (Validation.Literal "-") Htest eq_refl) as (c & -> & Hc).
    by rewrite (in_class_hyphen c Hc).
  - destruct (test_get _ _ 18 (Validation.Literal "-") Htest eq_refl) as (c & -> & Hc).
    by rewrite (in_class_hyphen c Hc).
  - destruct (test_get _ _ 23 (Validation.Literal "-") Htest eq_refl) as (c & -> & Hc).
    by rewrite (in_class_hyphen c Hc).
  - destruct (test_get _ _ 14 (Validation.Literal "4") Htest eq_refl) as (c & -> & Hc).
    by rewrite (in_class_four c Hc).
Qed.

(** X22: [validateUUID] ignores case: an id, its lower-case form and its
    upper-case form are all let through or all refused. *)
Theorem uuid_case_insensitive (i : string) :
  Validation.validateUUID (Js.toLowerCase i) = Validation.validateUUID i
  ∧ Validation.validateUUID (Js.toUpperCase i) = Validation.validateUUID i.
Proof. unfold Validation.validateUUID. by rewrite test_lower, test_upper. Qed.

(** ** Validated bodies *)

(** A task as the schemas admit it: a title of 1 to 100 characters and a
    description of at most 500. *)
Definition valid_task (t : Task) : Prop :=
  (1 ≤ String.length (title t) ≤ 100)%nat ∧ (String.length (description t) ≤ 500)%nat.

Lemma joi_string_Some lo hi allow_empty v s :
  Validation.joi_string lo hi allow_empty v = Some s →
  v = Validation.JString s
  ∧ ((s = "" ∧ allow_empty = true) ∨ (s ≠ "" ∧ (lo ≤ String.length s ≤ hi)%nat)).
Proof.
  unfold Validation.joi_string. destruct v as [s'|]; [|done].
  destruct (decide (s' = "")) as [->|Hne].
  - destruct allow_empty; [|done]. intros [= <-]. auto.
  - case_decide; [|done]. intros [= <-]. auto.
Qed.

Lemma optional_Some {A} (rule : Validation.Json → option A) v r :
  Validation.optional rule v = Some r →
  (v = None ∧ r = None) ∨ (∃ j a, v = Some j ∧ rule j = Some a ∧ r = Some a).
Proof.
  unfold Validation.optional. destruct v as [j|]; [|intros [= <-]; auto].
  destruct (rule j) as [a|] eqn:Hr; simpl; [|done]. intros [= <-]. right. eauto.
Qed.

Lemma createTaskSchema_Some body request :
  Validation.createTaskSchema body = Some request →
  Validation.member body "title" = Some (Validation.JString (Controller.c_title request))
  ∧ (1 ≤ String.length (Controller.c_title request) ≤ 100)%nat
  ∧ (∀ d, Controller.c_description request = Some d → (String.length d ≤ 500)%nat)
  ∧ (Validation.member body "description" = None → Controller.c_description request = None)
  ∧ (Validation.member body "status" = None → Controller.c_status request = None).
Proof.
  unfold Validation.createTaskSchema.
  destruct (Validation.known_keys _ body); [|done].
  destruct (Validation.member body "title") as [tv|]; [|done]. simpl.
  destruct (Validation.joi_string 1 100 false tv) as [t|] eqn:Ht; [|done]. simpl.
  destruct (Validation.optional _ (Validation.member body "description")) as [d|] eqn:Hd;
    [|done]. simpl.
  destruct (Validation.optional _ (Validation.member body "status")) as [st|] eqn:Hst;
    [|done]. simpl.
  intros [= <-]. simpl.
  apply joi_string_Some in Ht as [-> [[_ [=]]|[_ Hlen]]].
  apply optional_Some in Hd as [[Hdn ->]|(j & a & Hdj & Hrule & ->)];
    apply optional_Some in Hst as [[Hsn ->]|(j' & a' & Hsj & _ & ->)];
    split_and!; try done; try congruence; try lia.
  all: intros d [= <-]; apply joi_string_Some in Hrule as [_ [[-> _]|[_ ?]]]; simpl; lia.
Qed.

Lemma updateTaskSchema_Some body updates :
  Validation.updateTaskSchema body = Some updates →
  Validation.known_keys ["title"; "description"; "status"] body = true
  ∧ body ≠ []
  ∧ (∀ s, Handlers.u_title updates = Some s → (1 ≤ String.length s ≤ 100)%nat)
  ∧ (∀ d, Handlers.u_description updates = Some d → (String.length d ≤ 500)%nat).
Proof.
  unfold Validation.updateTaskSchema.
  destruct (Validation.known_keys _ body); [|done].
  destruct (Validation.optional _ (Validation.member body "title")) as [t|] eqn:Ht;
    [|done]. simpl.
  destruct (Validation.optional _ (Validation.member body "description")) as [d|] eqn:Hd;
    [|done]. simpl.
  destruct (Validation.optional _ (Validation.member body "status")) as [st|] eqn:Hst;
    [|done]. simpl.
  case_decide as Hlen; [|done]. intros [= <-]. simpl.
  split; [done|]. split; [|split].
  - intros ->. simpl in Hlen. lia.
  - intros s ->. apply optional_Some in Ht as [[_ [=]]|(j & a & _ & Hrule & [= <-])].
    by apply joi_string_Some in Hrule as [_ [[_ [=]]|[_ ?]]].
  - intros s ->. apply optional_Some in Hd as [[_ [=]]|(j & a & _ & Hrule & [= <-])].
    apply joi_string_Some in Hrule as [_ [[-> _]|[_ ?]]]; simpl; lia.
Qed.

Lemma known_keys_false keys (body : Validation.Body) k v :
  (k, v) ∈ body → k ∉ keys → Validation.known_keys keys body = false.
Proof.
  intros Hin Hk. unfold Validation.known_keys.
  apply not_true_iff_false. rewrite forallb_forall. intros Hall.
  specialize (Hall (k, v)). rewrite <- list_elem_of_In in Hall.
  apply Hall, bool_decide_eq_true in Hin. done.
Qed.

Lemma updateTaskController_store i updates now store :
  let r := Handlers.updateTaskController i updates now store in
  id <$> snd r = id <$> store
  ∧ createdAt <$> snd r = createdAt <$> store
  ∧ (Handlers.statusCode (fst r) ≠ 200 → snd r = store)
  ∧ ((∀ t, t ∈ store → valid_task t) →
     (∀ s, Handlers.u_title updates = Some s → (1 ≤ String.length s ≤ 100)%nat) →
     (∀ d, Handlers.u_description updates = Some d → (String.length d ≤ 500)%nat) →
     ∀ t, t ∈ snd r → valid_task t).
Proof.
  cbv zeta. unfold Handlers.updateTaskController.
  destruct (Volatile.getTaskById i store) as [t|] eqn:Hget.
  - destruct (volatile_updateTask_found i (Handlers.as_partial updates) now store t Hget)
      as (k & Hk & _ & ->). simpl. split_and!.
    + rewrite list_fmap_insert. apply list_insert_id. by rewrite list_lookup_fmap, Hk.
    + rewrite list_fmap_insert. apply list_insert_id. by rewrite list_lookup_fmap, Hk.
    + done.
    + intros Hvalid Htitle Hdesc t' Ht'.
      apply list_elem_of_lookup in Ht' as [j Hj].
      destruct (decide (j = k)) as [->|Hjk].
      * rewrite list_lookup_insert_eq in Hj by by eapply lookup_lt_Some.
        injection Hj as <-.
        assert (valid_task t) as [Ht1 Ht2] by by eapply Hvalid, list_elem_of_lookup_2.
        unfold valid_task, spread. simpl.
        destruct (Handlers.u_title updates) as [s|] eqn:Hs;
          destruct (Handlers.u_description updates) as [d|] eqn:Hd; simpl;
          try specialize (Htitle _ eq_refl); try specialize (Hdesc _ eq_refl); lia.
      * rewrite list_lookup_insert_ne in Hj by done.
        by eapply Hvalid, list_elem_of_lookup_2.
  - unfold Volatile.updateTask. unfold Volatile.getTaskById in Hget.
    apply fmap_None in Hget. rewrite Hget. simpl. split_and!; auto.
Qed.

(** X23: through [PUT /:id] (id check, body validation, handler) no
    record's [id] or [createdAt] ever changes, whatever the body holds; a
    body that is empty or names a key other than [title], [description]
    and [status] (such as [id] or [createdAt]) is answered 400; and every
    answer other than 200 leaves the store as it is. *)
Theorem put_task_keeps_identity (i : string) (body : Validation.Body) (now : Z)
    (store : list Task) :
  let r := Routes.put_task i body now store in
  id <$> snd r = id <$> store
  ∧ createdAt <$> snd r = createdAt <$> store
  ∧ (Handlers.statusCode (fst r) ≠ 200 → snd r = store)
  ∧ (body = [] → Handlers.statusCode (fst r) = 400)
  ∧ (∀ k v, (k, v) ∈ body → k ∉ ["title"; "description"; "status"] →
       Handlers.statusCode (fst r) = 400).
Proof.
  cbv zeta. unfold Routes.put_task, Validation.validateBody.
  destruct (Validation.validateUUID i) as [refused|] eqn:Hid.
  { unfold Validation.validateUUID in Hid.
    destruct (Validation.test _ i); [done|]. injection Hid as <-. simpl. auto. }
  destruct (Validation.updateTaskSchema body) as [updates|] eqn:Hschema.
  - apply updateTaskSchema_Some in Hschema as (Hkeys & Hne & _).
    destruct (updateTaskController_store i updates now store) as (H1 & H2 & H3 & _).
    split_and!; try done.
    intros k v Hin Hk. by rewrite (known_keys_false _ _ _ _ Hin Hk) in Hkeys.
  - simpl. auto.
Qed.


Lemma deleteTaskController_store i store :
  snd (Handlers.deleteTaskController i store) `sublist_of` store.
Proof.
  unfold Handlers.deleteTaskController.
  destruct (volatile_deleteTask_first i store) as (_ & _ & _ & Hsub).
  by destruct (fst (Volatile.deleteTask i store)).
Qed.

(** X25: the task routes keep the store valid: if every stored task has a
    title of 1 to 100 characters and a description of at most 500, the
    same holds after [POST /tasks], [PUT /:id] and [DELETE /:id], whatever
    the request holds.  In particular no create or update through the
    routes leaves a task with an empty title. *)
Theorem routes_keep_tasks_valid (store : list Task) (i uuid : string)
    (body : Validation.Body) (now now' : Z) :
  (∀ t, t ∈ store → valid_task t) →
  (∀ t, t ∈ snd (Routes.post_task body uuid now now' store) → valid_task t)
  ∧ (∀ t, t ∈ snd (Routes.put_task i body now store) → valid_task t)
  ∧ (∀ t, t ∈ snd (Routes.delete_task i store) → valid_task t).
Proof.
  intros Hvalid. split_and!.
  - unfold Routes.post_task, Validation.validateBody.
    destruct (Validation.createTaskSchema body) as [request|] eqn:Hschema; [|done].
    apply createTaskSchema_Some in Hschema as (_ & Hlen & Hdesc & _).
    simpl. intros t [Ht| ->%list_elem_of_singleton]%elem_of_app; [by apply Hvalid|].
    unfold valid_task. simpl. rewrite description_default. split; [done|].
    destruct (Controller.c_description request) as [d|]; simpl; [|lia]. by apply Hdesc.
  - unfold Routes.put_task, Validation.validateBody.
    destruct (Validation.validateUUID i); [done|].
    destruct (Validation.updateTaskSchema body) as [updates|] eqn:Hschema; [|done].
    apply updateTaskSchema_Some in Hschema as (_ & _ & Htitle & Hdesc).
    destruct (updateTaskController_store i updates now store) as (_ & _ & _ & Hkeep).
    by apply Hkeep.
  - unfold Routes.delete_task. destruct (Validation.validateUUID i); [done|].
    intros t Ht. apply Hvalid. eapply elem_of_sublist; [exact Ht|].
    apply deleteTaskController_store.
Qed.

Lemma routes_keep_tasks_valid_witness :
  (∀ t, t ∈ snd (Routes.post_task [("title", Validation.JString "D")] "d" 1 2 scenario)
        → valid_task t)
  ∧ (∀ t, t ∈ snd (Routes.put_task "a" [("title", Validation.JString "D")] 1 scenario)
          → valid_task t)
  ∧ (∀ t, t ∈ snd (Routes.delete_task "a" scenario) → valid_task t).
Proof.
  apply (routes_keep_tasks_valid scenario "a" "d" [("title", Validation.JString "D")] 1 2).
  intros t Ht. unfold scenario in Ht.
  repeat (apply elem_of_cons in Ht as [->|Ht]; [unfold valid_task; simpl; lia|]).
  by apply elem_of_nil in Ht.
Defined.

(** X26: [POST] then [GET]: when the generated id is not yet in the store,
    [createTask] answers 201 with the new task, and [getTaskById] through
    its handler then answers 200 with the very same task, whose fields
    are the request's title, description (default empty) and status
    (default [PENDING]), the generated id and the two clock readings. *)
Theorem create_then_read_back (body : Controller.CreateTaskRequest) (uuid : string)
    (now1 now2 : Z) (store : list Task) :
  uuid ∉ id <$> store →
  let created := Handlers.createTask body uuid now1 now2 store in
  let task := {| id := uuid;
                 title := Controller.c_title body;
                 description := default "" (Controller.c_description body);
                 status := default PENDING (Controller.c_status body);
                 createdAt := now1;
                 updatedAt := now2 |} in
  fst created = Handlers.mkResponse 201 true "Task created successfully" (Handlers.TaskData task)
  ∧ Handlers.getTaskByIdController uuid (snd created)
    = Handlers.mkResponse 200 true "Task retrieved successfully" (Handlers.TaskData task)
  ∧ Volatile.getTaskCount (snd created) = Volatile.getTaskCount store + 1.
Proof.
  intros Hfresh. cbv zeta. unfold Handlers.createTask, Handlers.getTaskByIdController.
  destruct (createTask_get body uuid now1 now2 store Hfresh) as [Hget Hfst].
  cbn [fst snd]. rewrite Hget, Hfst. split_and!; [done|done|].
  unfold Controller.createTask, Volatile.addTask, Volatile.getTaskCount. simpl.
  rewrite length_app. simpl. lia.
Qed.

Lemma create_then_read_back_witness :
  let created := Handlers.createTask (Controller.mkCreate "D" None None) "d" 7 7 scenario in
  let task := mkTask "d" "D" "" PENDING 7 7 in
  fst created = Handlers.mkResponse 201 true "Task created successfully" (Handlers.TaskData task)
  ∧ Handlers.getTaskByIdController "d" (snd created)
    = Handlers.mkResponse 200 true "Task retrieved successfully" (Handlers.TaskData task)
  ∧ Volatile.getTaskCount (snd created) = Volatile.getTaskCount scenario + 1.
Proof.
  apply (create_then_read_back (Controller.mkCreate "D" None None) "d" 7 7 scenario).
  by apply (bool_decide_unpack _).
Defined.
